(** * ImageVault gallery screen (src/App.tsx): model and verified properties

    The component [App] keeps three pieces of React state -- the list
    [images], the record [selectedImage] shown in the lightbox and the flag
    [modalVisible] -- and changes them from event handlers that talk to the
    platform (permission prompts, the image picker, the camera, alert
    dialogs, [Math.random] and [Date.now]).

    The handlers are embedded as computations in a small state monad over
    [Sys]: the React state plus a log of the platform calls made so far and
    the number of random draws and clock readings consumed.  What the
    platform answers (permission status, picker result, pressed button) is
    an argument of the handler that asks for it. *)

From Stdlib Require Import QArith Qround Qabs.
From stdpp Require Import base decidable option list strings pretty.

Local Open Scope string_scope.
Local Open Scope list_scope.
Local Open Scope Z_scope.

(** ** Data model *)

(** [interface UploadedImage { id; uri; name; size? }].  A byte count is an
    integer; [size] is [None] when the field is undefined. *)
Record UploadedImage := {
  id : string;
  uri : string;
  name : string;
  size : option Z
}.

(** The part of an [ImagePicker] asset the handlers read:
    [{ uri, fileName?, fileSize? }].  [fileName] may be undefined or null
    (both [None]) and [fileSize] may be undefined. *)
Record ImagePickerAsset := {
  asset_uri : string;
  fileName : option string;
  fileSize : option Z
}.

(** [ImagePickerResult]: [{ canceled, assets }], [assets] null when the
    picker was cancelled. *)
Record ImagePickerResult := {
  canceled : bool;
  assets : option (list ImagePickerAsset)
}.

(** Permission status reported by the platform. *)
Inductive PermissionStatus := granted | denied | undetermined.

(** The button the user presses in the two-button "Remove Image" alert. *)
Inductive RemoveChoice := PressCancel | PressRemove.

(** The three [useState] cells of [App]. *)
Record AppState := {
  images : list UploadedImage;
  selectedImage : option UploadedImage;
  modalVisible : bool
}.

(** Calls made to the platform, in the order they are made. *)
Inductive Event :=
| RequestMediaLibraryPermissions
| RequestCameraPermissions
| LaunchImageLibrary
| LaunchCamera
| AlertShown (title message : string) (buttons : list string).

(** The whole system: React state, the platform-call log (oldest first) and
    how many [Math.random()] and [Date.now()] calls have been made. *)
Record Sys := {
  app : AppState;
  rand_calls : nat;
  now_calls : nat;
  log : list Event
}.

#[global] Instance UploadedImage_eq_dec : EqDecision UploadedImage.
Proof. solve_decision. Defined.
#[global] Instance PermissionStatus_eq_dec : EqDecision PermissionStatus.
Proof. solve_decision. Defined.

(** [useState([])], [useState(null)], [useState(false)]. *)
Definition initial_app : AppState :=
  {| images := []; selectedImage := None; modalVisible := false |}.

Definition initial_sys : Sys :=
  {| app := initial_app; rand_calls := 0; now_calls := 0; log := [] |}.

(** ** The handler monad *)

Definition M (A : Type) : Type := Sys -> A * Sys.

Definition ret {A} (a : A) : M A := fun s => (a, s).

Definition bind {A B} (c : M A) (k : A -> M B) : M B :=
  fun s => let (a, s') := c s in k a s'.

Declare Scope handler_scope.
Delimit Scope handler_scope with handler.
Notation "x <- c ;; k" := (bind c (fun x => k))
  (at level 100, c at next level, k at level 200, right associativity) : handler_scope.
Notation "c ;; k" := (bind c (fun _ => k))
  (at level 100, k at level 200, right associativity) : handler_scope.
Local Open Scope handler_scope.

(** Final system state of a handler. *)
Definition exec {A} (c : M A) (s : Sys) : Sys := snd (c s).

Definition emit (e : Event) : M unit :=
  fun s => (tt, {| app := app s; rand_calls := rand_calls s;
                   now_calls := now_calls s; log := log s ++ [e] |}).

Definition update_app (f : AppState -> AppState) : M unit :=
  fun s => (tt, {| app := f (app s); rand_calls := rand_calls s;
                   now_calls := now_calls s; log := log s |}).

(** [setImages((prev) => f(prev))] *)
Definition setImages (f : list UploadedImage -> list UploadedImage) : M unit :=
  update_app (fun a => {| images := f (images a);
                          selectedImage := selectedImage a;
                          modalVisible := modalVisible a |}).

(** [setSelectedImage(v)] *)
Definition setSelectedImage (v : option UploadedImage) : M unit :=
  update_app (fun a => {| images := images a;
                          selectedImage := v;
                          modalVisible := modalVisible a |}).

(** [setModalVisible(v)] *)
Definition setModalVisible (v : bool) : M unit :=
  update_app (fun a => {| images := images a;
                          selectedImage := selectedImage a;
                          modalVisible := v |}).

(** [Alert.alert(title, message, buttons)] *)
Definition Alert_alert (title message : string) (buttons : list string) : M unit :=
  emit (AlertShown title message buttons).

(** [arr.map(f)] for an effectful [f], left to right. *)
Fixpoint mapM {A B} (f : A -> M B) (l : list A) : M (list B) :=
  match l with
  | [] => ret []
  | x :: l' => y <- f x ;; ys <- mapM f l' ;; ret (y :: ys)
  end.

(** JavaScript [a || b] on an optional string: [undefined], [null] and the
    empty string are falsy. *)
Definition truthy_string (o : option string) : option string :=
  match o with
  | Some s => if decide (s = "") then None else Some s
  | None => None
  end.

Section Handlers.

(** The platform's sources of nondeterminism.  [random36 n] is the text
    [Math.random().toString(36)] of the [n]-th draw of the session (for
    the draw 0.5 it is "0.i", for the draw 0 it is "0"); [clock n] is the
    [n]-th reading of [Date.now()], in milliseconds. *)
Variable random36 : nat -> string.
Variable clock : nat -> Z.

(** [Math.random().toString(36).substr(2, 9)]: at most nine characters,
    starting at index 2. *)
Definition random_id : M string :=
  fun s => (String.substring 2 9 (random36 (rand_calls s)),
            {| app := app s; rand_calls := S (rand_calls s);
               now_calls := now_calls s; log := log s |}).

(** [Date.now()] *)
Definition Date_now : M Z :=
  fun s => (clock (now_calls s),
            {| app := app s; rand_calls := rand_calls s;
               now_calls := S (now_calls s); log := log s |}).

(** [asset.fileName || `<prefix>_${Date.now()}.jpg`]: the clock is read
    only when the file name is falsy. *)
Definition name_or_stamp (prefix : string) (o : option string) : M string :=
  match truthy_string o with
  | Some n => ret n
  | None => t <- Date_now ;; ret (prefix +:+ "_" +:+ pretty t +:+ ".jpg")
  end.

(** The object literal built for one asset; fields are evaluated in
    source order: id, uri, name, size. *)
Definition make_image (prefix : string) (asset : ImagePickerAsset) : M UploadedImage :=
  i <- random_id ;;
  n <- name_or_stamp prefix (fileName asset) ;;
  ret {| id := i; uri := asset_uri asset; name := n; size := fileSize asset |}.

(** [requestPermissions], lines 33-43. *)
Definition requestPermissions (status : PermissionStatus) : M bool :=
  emit RequestMediaLibraryPermissions ;;
  if bool_decide (status <> granted) then
    Alert_alert "Permission Required"
      "Sorry, we need camera roll permissions to upload images!" [] ;;
    ret false
  else ret true.

(** [pickImage], lines 45-66.  [status] is the platform's answer to the
    permission request and [result] what the picker resolves to when it
    is launched. *)
Definition pickImage (status : PermissionStatus) (result : ImagePickerResult) : M unit :=
  hasPermission <- requestPermissions status ;;
  if negb hasPermission then ret tt else
  emit LaunchImageLibrary ;;
  match negb (canceled result), assets result with
  | true, Some l =>
      newImages <- mapM (make_image "image") l ;;
      setImages (fun prev => prev ++ newImages)
  | _, _ => ret tt
  end.

(** [takePhoto], lines 68-94. *)
Definition takePhoto (status : PermissionStatus) (result : ImagePickerResult) : M unit :=
  emit RequestCameraPermissions ;;
  if bool_decide (status <> granted) then
    Alert_alert "Permission Required"
      "Sorry, we need camera permissions to take photos!" []
  else
  emit LaunchCamera ;;
  match negb (canceled result), assets result with
  | true, Some (asset :: _) =>
      newImage <- make_image "photo" asset ;;
      setImages (fun prev => prev ++ [newImage])
  | _, _ => ret tt
  end.

(** [removeImage], lines 96-111: the alert is shown, and only the
    "Remove" button has an [onPress]. *)
Definition removeImage (i : string) (choice : RemoveChoice) : M unit :=
  Alert_alert "Remove Image" "Are you sure you want to remove this image?"
    ["Cancel"; "Remove"] ;;
  match choice with
  | PressCancel => ret tt
  | PressRemove => setImages (fun prev => filter (fun img => id img <> i) prev)
  end.

(** [openLightbox], lines 113-116. *)
Definition openLightbox (image : UploadedImage) : M unit :=
  setSelectedImage (Some image) ;;
  setModalVisible true.

(** [closeLightbox], lines 118-121. *)
Definition closeLightbox : M unit :=
  setSelectedImage None ;;
  setModalVisible false.

(** One user-level operation together with what the platform and the user
    answer during it. *)
Inductive Op :=
| OpPickImage (status : PermissionStatus) (result : ImagePickerResult)
| OpTakePhoto (status : PermissionStatus) (result : ImagePickerResult)
| OpRemoveImage (i : string) (choice : RemoveChoice)
| OpOpenLightbox (image : UploadedImage)
| OpCloseLightbox.

Definition step (o : Op) : M unit :=
  match o with
  | OpPickImage st r => pickImage st r
  | OpTakePhoto st r => takePhoto st r
  | OpRemoveImage i c => removeImage i c
  | OpOpenLightbox img => openLightbox img
  | OpCloseLightbox => closeLightbox
  end.

(** Handlers run one after the other on the UI thread. *)
Fixpoint run (ops : list Op) (s : Sys) : Sys :=
  match ops with
  | [] => s
  | o :: ops' => run ops' (exec (step o) s)
  end.

End Handlers.

(** ** [formatFileSize], lines 123-126 *)

(** [Number.prototype.toFixed(2)] on a rational [x] with [|x| < 10^21]
    (ECMAScript, Number.prototype.toFixed): the sign is split off, [n] is
    the integer for which [n / 100 - |x|] is closest to zero (the larger
    one when two are equally close), its decimal digits are padded with
    leading zeros to at least three characters, and the point goes before
    the last two. *)
Definition toFixed2 (x : Q) : string :=
  let s := if Qlt_le_dec x 0%Q then "-" else "" in
  let n := Z.to_N (Qfloor (Qabs x * 100 + (1 # 2))%Q) in
  let m := pretty n in
  let m := if (String.length m <=? 2)%nat
           then String.concat "" (replicate (3 - String.length m) "0") +:+ m
           else m in
  let k := String.length m in
  s +:+ String.substring 0 (k - 2) m +:+ "." +:+ String.substring (k - 2) 2 m.

(** A byte count is an integer [b]; dividing it twice by 1024 is exact in
    binary floating point (only the exponent changes), so
    [bytes / 1024 / 1024] is the rational [b / 1024 / 1024].  [!bytes]
    holds for [undefined] and for 0. *)
Definition formatFileSize (bytes : option Z) : string :=
  match bytes with
  | None => "Unknown size"
  | Some b =>
      if decide (b = 0) then "Unknown size"
      else toFixed2 (inject_Z b / 1024 / 1024)%Q +:+ " MB"
  end.

(** ** Vocabulary of the properties *)

(** The id a record gets from the [n]-th random draw. *)
Definition token (random36 : nat -> string) (n : nat) : string :=
  String.substring 2 9 (random36 n).

(** All ids handed out so far, oldest first. *)
Definition issued (random36 : nat -> string) (s : Sys) : list string :=
  token random36 <$> seq 0 (rand_calls s).

(** The ids of the records of the list. *)
Definition ids (l : list UploadedImage) : list string := id <$> l.

(** The operations a well-behaved caller makes: [openLightbox] gets a
    record of the current list (the grid builds its cards from [images]),
    and a confirmed removal does not carry the id of the record that is
    selected at that moment. *)
Definition enabled (o : Op) (s : Sys) : bool :=
  match o with
  | OpOpenLightbox img => bool_decide (img ∈ images (app s))
  | OpRemoveImage i PressRemove =>
      match selectedImage (app s) with
      | Some r => bool_decide (id r <> i)
      | None => true
      end
  | _ => true
  end.

Fixpoint guarded (random36 : nat -> string) (clock : nat -> Z)
    (ops : list Op) (s : Sys) : bool :=
  match ops with
  | [] => true
  | o :: ops' =>
      enabled o s && guarded random36 clock ops' (exec (step random36 clock o) s)
  end.

(** What one asset contributes to the new record, given the place [k] of
    its random draw and the clock readings [from, to) made during the
    call that builds it. *)
Definition built_from (random36 : nat -> string) (clock : nat -> Z)
    (prefix : string) (k from to : nat)
    (asset : ImagePickerAsset) (rec : UploadedImage) : Prop :=
  id rec = token random36 k /\
  uri rec = asset_uri asset /\
  size rec = fileSize asset /\
  (forall n, fileName asset = Some n -> n <> "" -> name rec = n) /\
  (fileName asset = None \/ fileName asset = Some "" ->
   exists j, (from <= j < to)%nat /\
     name rec = prefix +:+ "_" +:+ pretty (clock j) +:+ ".jpg").

(** The React state after appending [recs]. *)
Definition appended (a : AppState) (recs : list UploadedImage) : AppState :=
  {| images := images a ++ recs;
     selectedImage := selectedImage a;
     modalVisible := modalVisible a |}.

(** The system once the library picker has been launched. *)
Definition library_launched (s : Sys) : Sys :=
  {| app := app s; rand_calls := rand_calls s; now_calls := now_calls s;
     log := (log s ++ [RequestMediaLibraryPermissions]) ++ [LaunchImageLibrary] |}.

(** The system once the camera has been launched. *)
Definition camera_launched (s : Sys) : Sys :=
  {| app := app s; rand_calls := rand_calls s; now_calls := now_calls s;
     log := (log s ++ [RequestCameraPermissions]) ++ [LaunchCamera] |}.

(** The lightbox is open exactly when a record is selected. *)
Definition viewer_inv (a : AppState) : Prop :=
  modalVisible a = true <-> is_Some (selectedImage a).

(** The selected record, if any, is in the list. *)
Definition selected_listed (a : AppState) : Prop :=
  forall r, selectedImage a = Some r -> r ∈ images a.

(** A number with exactly two decimals: optional minus sign, integer part of
    [n / 100], point, tens and units digit of [n]. *)
Definition two_decimals (negative : bool) (n : N) : string :=
  (if negative then "-" else "") +:+ pretty (n / 100)%N +:+ "." +:+
  String (pretty_N_char (n / 10 mod 10)%N) (String (pretty_N_char (n mod 10)%N) "").

(** [n] hundredths is the value nearest to [|b| / 1048576], the upper one
    when [|b| / 1048576] lies midway between two hundredths. *)
Definition nearest_hundredth (n : N) (b : Z) : Prop :=
  - 1048576 < 2 * (Z.of_N n * 1048576 - 100 * Z.abs b) <= 1048576.

(** ** The "Add Image" dialog, lines 128-138 *)

(** The button the user presses in the three-button "Add Image" alert. *)
Inductive AddChoice := ChooseCamera | ChoosePhotoLibrary | ChooseCancel.

(** [showImageOptions]: the alert is shown; "Camera" has [takePhoto] as its
    [onPress], "Photo Library" has [pickImage], "Cancel" has none.
    [status] and [result] are the platform's answers to the handler that
    is started. *)
Definition showImageOptions (random36 : nat -> string) (clock : nat -> Z)
    (choice : AddChoice) (status : PermissionStatus)
    (result : ImagePickerResult) : M unit :=
  (Alert_alert "Add Image" "Choose an option" ["Camera"; "Photo Library"; "Cancel"] ;;
   match choice with
   | ChooseCamera => takePhoto random36 clock status result
   | ChoosePhotoLibrary => pickImage random36 clock status result
   | ChooseCancel => ret tt
   end)%handler.

(** ** Further vocabulary *)

(** The assets of an operation that end up as records: all assets of a
    granted, not cancelled library pick, the first asset of a granted, not
    cancelled camera capture, none otherwise. *)
Definition accepted (o : Op) : list ImagePickerAsset :=
  match o with
  | OpPickImage granted r =>
      if canceled r then [] else match assets r with Some l => l | None => [] end
  | OpTakePhoto granted r =>
      if canceled r then []
      else match assets r with Some (a :: _) => [a] | _ => [] end
  | _ => []
  end.

(** An operation that deletes records. *)
Definition is_removal (o : Op) : bool :=
  match o with
  | OpRemoveImage _ PressRemove => true
  | _ => false
  end.

(** The record carries the locator and byte count of the asset. *)
Definition same_data (a : ImagePickerAsset) (r : UploadedImage) : Prop :=
  uri r = asset_uri a /\ size r = fileSize a.

(** The record has a name to show and an id of at most nine characters. *)
Definition well_formed (r : UploadedImage) : Prop :=
  name r <> "" /\ (String.length (id r) <= 9)%nat.

(** Locator and byte count of a record, and of an asset. *)
Definition record_data (r : UploadedImage) : string * option Z := (uri r, size r).
Definition asset_data (a : ImagePickerAsset) : string * option Z :=
  (asset_uri a, fileSize a).

(** How many of the assets have no usable file name (undefined, null or
    empty) and so get a time-stamped name. *)
Definition unnamed (l : list ImagePickerAsset) : nat :=
  length (filter (fun a => truthy_string (fileName a) = None) l).

(** What the log gains after the permission request: the launch when the
    permission is granted, the given alert otherwise. *)
Definition launch_or_alert (status : PermissionStatus) (launch : Event)
    (message : string) : Event :=
  if decide (status = granted) then launch
  else AlertShown "Permission Required" message [].

(** ** Sample inputs *)

(** A generator that draws 0.5 every time: [(0.5).toString(36)] is "0.i". *)
Definition always_half : nat -> string := fun _ => "0.i".

(** A clock stuck at one millisecond value. *)
Definition frozen_clock : nat -> Z := fun _ => 1700000000000.

(** A camera result with one named asset. *)
Definition photo_jpg : ImagePickerAsset :=
  {| asset_uri := "file:///tmp/p.jpg"; fileName := Some "p.jpg"; fileSize := None |}.

Definition one_photo : ImagePickerResult :=
  {| canceled := false; assets := Some [photo_jpg] |}.

(** The record built from [photo_jpg] when the draw is 0.5. *)
Definition record_i : UploadedImage :=
  {| id := "i"; uri := "file:///tmp/p.jpg"; name := "p.jpg"; size := None |}.

(** A system state around a given React state, nothing logged yet. *)
Definition sys_of (a : AppState) : Sys :=
  {| app := a; rand_calls := 0; now_calls := 0; log := [] |}.

(** Three records with different ids. *)
Definition record_a : UploadedImage :=
  {| id := "a1"; uri := "file:///a"; name := "a.jpg"; size := None |}.
Definition record_b : UploadedImage :=
  {| id := "b2"; uri := "file:///b"; name := "b.jpg"; size := Some 2097152 |}.
Definition record_c : UploadedImage :=
  {| id := "c3"; uri := "file:///c"; name := "c.jpg"; size := Some 1 |}.

(** Three records, the middle one open in the lightbox. *)
Definition viewing_b : Sys :=
  sys_of {| images := [record_a; record_b; record_c];
            selectedImage := Some record_b; modalVisible := true |}.

(** Draws that render to three different texts. *)
Definition three_draws (n : nat) : string :=
  match n with
  | O => "0.4fzyo82mvyr"
  | S O => "0.k2j8x0c1q7a"
  | _ => "0.9zt3lq5d0w"
  end.

(** Picker assets: named without size, named with size, unnamed. *)
Definition asset_a : ImagePickerAsset :=
  {| asset_uri := "file:///a"; fileName := Some "a.jpg"; fileSize := None |}.
Definition asset_b : ImagePickerAsset :=
  {| asset_uri := "file:///b"; fileName := Some "b.jpg"; fileSize := Some 2097152 |}.
Definition asset_unnamed : ImagePickerAsset :=
  {| asset_uri := "file:///c"; fileName := None; fileSize := Some 5 |}.

(** * Properties *)

(** ** Removing a record *)

Lemma removeImage_app (i : string) (choice : RemoveChoice) (s : Sys) :
  app (exec (removeImage i choice) s) =
  match choice with
  | PressCancel => app s
  | PressRemove =>
      {| images := filter (fun img => id img <> i) (images (app s));
         selectedImage := selectedImage (app s);
         modalVisible := modalVisible (app s) |}
  end.
Proof. destruct choice; reflexivity. Qed.

Lemma AppState_eta (a : AppState) :
  {| images := images a; selectedImage := selectedImage a;
     modalVisible := modalVisible a |} = a.
Proof. by destruct a. Qed.

Lemma filter_keeps_all {A} (P : A -> Prop) `{forall x, Decision (P x)} (l : list A) :
  Forall P l -> filter P l = l.
Proof.
  induction 1 as [|x l Hx _ IH]; [done|].
  by rewrite filter_cons_True, IH.
Qed.

Lemma filter_id_gone (i : string) (l : list UploadedImage) :
  i ∉ ids (filter (fun img => id img <> i) l).
Proof.
  unfold ids. intros (x & Hi & Hx)%list_elem_of_fmap.
  apply list_elem_of_filter in Hx as [Hne _]. by apply Hne.
Qed.

(** C9: [removeImage] touches only [images]: whatever the id (also the id
    of the selected record) and whichever button is pressed, the selected
    record and the lightbox flag are the ones from before. *)
Theorem removeImage_frame (i : string) (choice : RemoveChoice) (s : Sys) :
  selectedImage (app (exec (removeImage i choice) s)) = selectedImage (app s) /\
  modalVisible (app (exec (removeImage i choice) s)) = modalVisible (app s).
Proof. rewrite removeImage_app. by destruct choice. Qed.

(** C10: [openLightbox] stores the record it is given and opens the
    lightbox without looking at [images]; the list is left as it is, and
    the update is the same for a record that is not in the list (from the
    initial state no record is). *)
Theorem openLightbox_unconditional (image : UploadedImage) (s : Sys) :
  selectedImage (app (exec (openLightbox image) s)) = Some image /\
  modalVisible (app (exec (openLightbox image) s)) = true /\
  images (app (exec (openLightbox image) s)) = images (app s) /\
  (image ∉ images (app initial_sys)) /\
  app (exec (openLightbox image) initial_sys) =
    {| images := []; selectedImage := Some image; modalVisible := true |}.
Proof.
  repeat split; try reflexivity.
  simpl. apply not_elem_of_nil.
Qed.

(** C5: with "Cancel" the React state is the one from before; with
    "Remove" the new list holds the records whose id differs from the
    given one and no others, in the order they had, and when one record
    carries the id the list is the old one with that record cut out. *)
Theorem removeImage_cancel_or_delete (i : string) (s : Sys) :
  app (exec (removeImage i PressCancel) s) = app s /\
  let l := images (app s) in
  let l' := images (app (exec (removeImage i PressRemove) s)) in
  (forall img, img ∈ l' <-> img ∈ l /\ id img <> i) /\
  l' `sublist_of` l /\
  (forall l1 r l2, l = l1 ++ r :: l2 -> id r = i -> i ∉ ids (l1 ++ l2) ->
     l' = l1 ++ l2).
Proof.
  split; [reflexivity|].
  rewrite removeImage_app. cbn [images].
  split; [|split].
  - intros img. rewrite list_elem_of_filter. tauto.
  - apply sublist_filter.
  - intros l1 r l2 -> Hr Hnot.
    rewrite filter_app, filter_cons_False by (intros H; by apply H).
    rewrite <- filter_app.
    apply filter_keeps_all, Forall_forall.
    intros x Hx Heq. apply Hnot. unfold ids.
    apply list_elem_of_fmap. by exists x.
Qed.

(** C6: a confirmed [removeImage i] run a second time finds no record with
    that id: the list it filters is returned as it is, the React state is
    the one left by the first call, and, the handler being a total
    function, the second call produces that state for every input. *)
Theorem removeImage_twice (i : string) (s : Sys) :
  let s1 := exec (removeImage i PressRemove) s in
  let s2 := exec (removeImage i PressRemove) s1 in
  (i ∉ ids (images (app s1))) /\
  filter (fun img => id img <> i) (images (app s1)) = images (app s1) /\
  app s2 = app s1.
Proof.
  cbv zeta. rewrite !removeImage_app. cbn [images selectedImage modalVisible].
  pose proof (filter_id_gone i (images (app s))) as Hgone.
  assert (Hall : Forall (fun img => id img <> i)
                   (filter (fun img => id img <> i) (images (app s)))).
  { apply Forall_forall. intros x Hx. by apply list_elem_of_filter in Hx as [? _]. }
  split; [done|]. split.
  - by apply filter_keeps_all.
  - by rewrite filter_keeps_all.
Qed.

Lemma removeImage_cancel_or_delete_witness :
  images (app (exec (removeImage "b2" PressRemove) viewing_b)) = [record_a; record_c].
Proof.
  destruct (removeImage_cancel_or_delete "b2" viewing_b) as (_ & _ & _ & H).
  apply (H [record_a] record_b [record_c]); [reflexivity | reflexivity |].
  vm_compute. intros Hin. repeat (apply elem_of_cons in Hin as [Hin|Hin]; [discriminate|]).
  by apply elem_of_nil in Hin.
Defined.

(** C1 (as amended): a confirmed [removeImage] given the id of the selected
    record deletes the records with that id from [images] and leaves the
    lightbox as it was: the removed record stays selected and
    [modalVisible] keeps its value. *)
Theorem removeImage_selected_stays (i : string) (r : UploadedImage) (s : Sys) :
  selectedImage (app s) = Some r -> id r = i ->
  let s' := exec (removeImage i PressRemove) s in
  (r ∉ images (app s')) /\
  images (app s') = filter (fun img => id img <> i) (images (app s)) /\
  selectedImage (app s') = Some r /\
  modalVisible (app s') = modalVisible (app s).
Proof.
  intros Hsel Hid. cbv zeta. rewrite removeImage_app. cbn.
  repeat split; try done.
  intros [Hne _]%list_elem_of_filter. by apply Hne.
Qed.

Lemma removeImage_selected_stays_witness :
  selectedImage (app (exec (removeImage "b2" PressRemove) viewing_b)) = Some record_b /\
  modalVisible (app (exec (removeImage "b2" PressRemove) viewing_b)) = true.
Proof.
  destruct (removeImage_selected_stays "b2" record_b viewing_b) as (_ & _ & H1 & H2);
    [reflexivity | reflexivity |].
  split; [exact H1 | exact H2].
Defined.

(** ** Adding images *)

Section Properties.

Variable random36 : nat -> string.
Variable clock : nat -> Z.

Lemma built_from_mono prefix k from to from' to' asset rec :
  (from' <= from)%nat -> (to <= to')%nat ->
  built_from random36 clock prefix k from to asset rec ->
  built_from random36 clock prefix k from' to' asset rec.
Proof.
  intros ? ? (? & ? & ? & ? & Hn). repeat split; try done.
  intros Ha. destruct (Hn Ha) as (j & ? & ?). exists j. split; [lia|done].
Qed.

Lemma make_image_spec prefix asset s rec s' :
  make_image random36 clock prefix asset s = (rec, s') ->
  app s' = app s /\ log s' = log s /\
  rand_calls s' = S (rand_calls s) /\
  (now_calls s <= now_calls s' <= S (now_calls s))%nat /\
  built_from random36 clock prefix (rand_calls s) (now_calls s) (now_calls s') asset rec.
Proof.
  unfold make_image, bind, random_id, name_or_stamp, built_from, token.
  destruct asset as [u [n|] sz]; cbn;
    [destruct (decide (n = "")) as [->|Hn]; cbn|];
    intros [= <- <-]; cbn; repeat split; try done; try lia.
  all: try (intros n' [= <-] Hn'; done).
  all: try (intros [[=]|[= ->]]; done).
  all: intros _; exists (now_calls s); split; [lia|done].
Qed.

Lemma mapM_make_image_spec prefix l : forall s recs s',
  mapM (make_image random36 clock prefix) l s = (recs, s') ->
  app s' = app s /\ log s' = log s /\
  rand_calls s' = (rand_calls s + length l)%nat /\
  (now_calls s <= now_calls s')%nat /\
  length recs = length l /\
  ids recs = token random36 <$> seq (rand_calls s) (length l) /\
  (forall k asset, l !! k = Some asset ->
     exists rec, recs !! k = Some rec /\
       built_from random36 clock prefix (rand_calls s + k) (now_calls s) (now_calls s') asset rec).
Proof.
  induction l as [|a l IH]; intros s recs s' E.
  - injection E as <- <-. cbn. repeat split; try done; lia.
  - cbn [mapM] in E. unfold bind, ret in E.
    destruct (make_image random36 clock prefix a s) as [rec s1] eqn:E1.
    destruct (mapM (make_image random36 clock prefix) l s1) as [recs1 s2] eqn:E2.
    injection E as <- <-.
    destruct (make_image_spec _ _ _ _ _ E1) as (Ha & Hl & Hr & Hn & Hb).
    destruct (IH _ _ _ E2) as (Ha' & Hl' & Hr' & Hn' & Hlen & Hids & Hk).
    cbn [length]. repeat split; try congruence; try lia.
    + unfold ids in *. cbn [seq]. rewrite !fmap_cons, Hids, Hr.
      f_equal. apply Hb.
    + intros [|k] asset Hlook; cbn in Hlook.
      * injection Hlook as ->. exists rec. split; [done|].
        rewrite Nat.add_0_r.
        eapply built_from_mono; [| |exact Hb]; lia.
      * destruct (Hk k asset Hlook) as (rec' & Hrec' & Hb').
        exists rec'. split; [done|].
        replace (rand_calls s + S k)%nat with (rand_calls s1 + k)%nat by lia.
        eapply built_from_mono; [| |exact Hb']; lia.
Qed.

Lemma appended_nil a : appended a [] = a.
Proof. unfold appended. rewrite app_nil_r. apply AppState_eta. Qed.

(** Closes the cases in which a handler appends nothing. *)
Ltac nothing_added := exists []; cbn; by rewrite appended_nil, Nat.add_0_r.

(** Without the grant only the request and the alert are logged. *)
Lemma pickImage_not_granted status result s :
  status <> granted ->
  exec (pickImage random36 clock status result) s =
  {| app := app s; rand_calls := rand_calls s; now_calls := now_calls s;
     log := log s ++ [RequestMediaLibraryPermissions;
                      AlertShown "Permission Required"
                        "Sorry, we need camera roll permissions to upload images!" []] |}.
Proof.
  intros Hs. unfold pickImage, requestPermissions, exec, bind.
  rewrite bool_decide_eq_true_2 by done. cbn. by rewrite <- app_assoc.
Qed.

Lemma takePhoto_not_granted status result s :
  status <> granted ->
  exec (takePhoto random36 clock status result) s =
  {| app := app s; rand_calls := rand_calls s; now_calls := now_calls s;
     log := log s ++ [RequestCameraPermissions;
                      AlertShown "Permission Required"
                        "Sorry, we need camera permissions to take photos!" []] |}.
Proof.
  intros Hs. unfold takePhoto, exec, bind.
  rewrite bool_decide_eq_true_2 by done. cbn. by rewrite <- app_assoc.
Qed.

(** With the grant the picker is launched and its result decides. *)
Lemma pickImage_granted result s :
  pickImage random36 clock granted result s =
  match negb (canceled result), assets result with
  | true, Some l =>
      (newImages <- mapM (make_image random36 clock "image") l ;;
       setImages (fun prev => prev ++ newImages)) (library_launched s)
  | _, _ => (tt, library_launched s)
  end.
Proof.
  unfold pickImage, requestPermissions, bind.
  rewrite bool_decide_eq_false_2 by (intros H; by apply H). cbn.
  by destruct (negb (canceled result)), (assets result).
Qed.

Lemma takePhoto_granted result s :
  takePhoto random36 clock granted result s =
  match negb (canceled result), assets result with
  | true, Some (asset :: _) =>
      (newImage <- make_image random36 clock "photo" asset ;;
       setImages (fun prev => prev ++ [newImage])) (camera_launched s)
  | _, _ => (tt, camera_launched s)
  end.
Proof.
  unfold takePhoto, bind.
  rewrite bool_decide_eq_false_2 by (intros H; by apply H). cbn.
  by destruct (negb (canceled result)), (assets result) as [[|? ?]|].
Qed.

(** Both ways of adding images append some records, built from the next
    random draws in order, and touch nothing else of the React state. *)
Lemma pickImage_appends status result s :
  exists recs,
    app (exec (pickImage random36 clock status result) s) = appended (app s) recs /\
    rand_calls (exec (pickImage random36 clock status result) s)
      = (rand_calls s + length recs)%nat /\
    ids recs = token random36 <$> seq (rand_calls s) (length recs).
Proof.
  destruct (decide (status = granted)) as [->|Hs].
  - unfold exec. rewrite pickImage_granted.
    destruct (negb (canceled result)), (assets result) as [l|];
      try nothing_added.
    unfold bind.
    destruct (mapM (make_image random36 clock "image") l (library_launched s))
      as [recs s1] eqn:E.
    destruct (mapM_make_image_spec _ _ _ _ _ E) as (Ha & _ & Hr & _ & Hlen & Hids & _).
    exists recs. cbn in *. rewrite Ha, Hr, Hlen. done.
  - rewrite pickImage_not_granted by done.
    nothing_added.
Qed.

Lemma takePhoto_appends status result s :
  exists recs,
    app (exec (takePhoto random36 clock status result) s) = appended (app s) recs /\
    rand_calls (exec (takePhoto random36 clock status result) s)
      = (rand_calls s + length recs)%nat /\
    ids recs = token random36 <$> seq (rand_calls s) (length recs).
Proof.
  destruct (decide (status = granted)) as [->|Hs].
  - unfold exec. rewrite takePhoto_granted.
    destruct (negb (canceled result)), (assets result) as [[|a l]|];
      try nothing_added.
    unfold bind.
    destruct (make_image random36 clock "photo" a (camera_launched s))
      as [rec s1] eqn:E.
    destruct (make_image_spec _ _ _ _ _ E) as (Ha & _ & Hr & _ & Hb).
    exists [rec]. cbn in *. rewrite Ha, Hr. repeat split; [lia|].
    f_equal. apply Hb.
  - rewrite takePhoto_not_granted by done.
    nothing_added.
Qed.

(** ** Permission denied *)

(** C8: when the permission service answers [denied], [pickImage] and
    [takePhoto] each make one permission request, show one "Permission
    Required" alert and stop: no second request, no picker or camera
    launch, no random draw or clock reading, and the React state
    ([images], [selectedImage], [modalVisible]) is the one from before. *)
Theorem permission_denied_aborts (result : ImagePickerResult) (s : Sys) :
  let s1 := exec (pickImage random36 clock denied result) s in
  let s2 := exec (takePhoto random36 clock denied result) s in
  app s1 = app s /\
  log s1 = log s ++ [RequestMediaLibraryPermissions;
                     AlertShown "Permission Required"
                       "Sorry, we need camera roll permissions to upload images!" []] /\
  rand_calls s1 = rand_calls s /\ now_calls s1 = now_calls s /\
  app s2 = app s /\
  log s2 = log s ++ [RequestCameraPermissions;
                     AlertShown "Permission Required"
                       "Sorry, we need camera permissions to take photos!" []] /\
  rand_calls s2 = rand_calls s /\ now_calls s2 = now_calls s.
Proof.
  cbv zeta. rewrite pickImage_not_granted, takePhoto_not_granted by done.
  cbn. repeat split.
Qed.

(** ** Importing from the library *)

(** C4: with permission granted and a picker result that is not
    cancelled, [pickImage] appends one record per asset, in the picker's
    order, and changes nothing else of the React state.  The record of
    the asset at place [k] has the token of the [k]-th random draw of the
    call as id, the asset's uri and byte count, and as name the asset's
    file name, or [image_<Date.now()>.jpg] with a clock reading made
    during the call when the file name is missing (undefined, null or,
    as [||] has it, empty).  A cancelled result leaves the React state as
    it was. *)
Theorem pickImage_appends_records (l : list ImagePickerAsset)
    (a : option (list ImagePickerAsset)) (s : Sys) :
  let s' := exec (pickImage random36 clock granted
                    {| canceled := false; assets := Some l |}) s in
  (exists recs,
     app s' = appended (app s) recs /\
     length recs = length l /\
     forall k asset, l !! k = Some asset ->
       exists rec, recs !! k = Some rec /\
         built_from random36 clock "image" (rand_calls s + k) (now_calls s) (now_calls s') asset rec) /\
  app (exec (pickImage random36 clock granted
               {| canceled := true; assets := a |}) s) = app s.
Proof.
  cbv zeta. unfold exec. rewrite !pickImage_granted. cbn [canceled assets negb].
  split; [|reflexivity].
  unfold bind.
  destruct (mapM (make_image random36 clock "image") l (library_launched s))
    as [recs s1] eqn:E.
  destruct (mapM_make_image_spec _ _ _ _ _ E) as (Ha & _ & _ & _ & Hlen & _ & Hk).
  exists recs. cbn in *. rewrite Ha. repeat split; done.
Qed.

(** ** The lightbox invariant *)

Lemma step_app o s :
  app (exec (step random36 clock o) s) =
  match o with
  | OpPickImage st r => app (exec (pickImage random36 clock st r) s)
  | OpTakePhoto st r => app (exec (takePhoto random36 clock st r) s)
  | OpRemoveImage i PressCancel => app s
  | OpRemoveImage i PressRemove =>
      {| images := filter (fun img => id img <> i) (images (app s));
         selectedImage := selectedImage (app s);
         modalVisible := modalVisible (app s) |}
  | OpOpenLightbox img =>
      {| images := images (app s); selectedImage := Some img; modalVisible := true |}
  | OpCloseLightbox =>
      {| images := images (app s); selectedImage := None; modalVisible := false |}
  end.
Proof. destruct o as [| |i []| |]; reflexivity. Qed.

Lemma step_viewer_inv o s :
  viewer_inv (app s) -> viewer_inv (app (exec (step random36 clock o) s)).
Proof.
  unfold viewer_inv. intros Hinv. rewrite step_app.
  destruct o as [st r|st r|i []|img|].
  - destruct (pickImage_appends st r s) as (recs & -> & _). done.
  - destruct (takePhoto_appends st r s) as (recs & -> & _). done.
  - done.
  - done.
  - cbn. split; [by eexists|done].
  - cbn. split; [done|]. by intros [? ?].
Qed.

Lemma step_selected_listed o s :
  enabled o s = true ->
  selected_listed (app s) -> selected_listed (app (exec (step random36 clock o) s)).
Proof.
  unfold selected_listed. intros Hen Hinv. rewrite step_app.
  destruct o as [st r|st r|i []|img|]; cbn in Hen |- *.
  - destruct (pickImage_appends st r s) as (recs & -> & _). cbn.
    intros x Hx. apply elem_of_app. left. by apply Hinv.
  - destruct (takePhoto_appends st r s) as (recs & -> & _). cbn.
    intros x Hx. apply elem_of_app. left. by apply Hinv.
  - done.
  - intros x Hx. rewrite Hx in Hen. apply bool_decide_eq_true in Hen.
    apply list_elem_of_filter. split; [done|by apply Hinv].
  - intros x [= <-]. by apply bool_decide_eq_true in Hen.
  - done.
Qed.

Lemma run_viewer_inv ops : forall s,
  viewer_inv (app s) -> viewer_inv (app (run random36 clock ops s)).
Proof.
  induction ops as [|o ops IH]; intros s Hinv; [done|].
  cbn [run]. by apply IH, step_viewer_inv.
Qed.

Lemma run_selected_listed ops : forall s,
  guarded random36 clock ops s = true ->
  selected_listed (app s) -> selected_listed (app (run random36 clock ops s)).
Proof.
  induction ops as [|o ops IH]; intros s Hg Hinv; [done|].
  cbn [run guarded] in *. apply andb_true_iff in Hg as [Hen Hg].
  by apply IH, step_selected_listed.
Qed.

(** C2 (as amended): after every sequence of operations from the initial
    state, an open lightbox has a selected record; the id of that record
    is among the ids of [images] when, in the sequence, every
    [openLightbox] was given a record of the current list and no
    confirmed [removeImage] was given the id of the record selected at
    that moment. *)
Theorem viewer_open_has_selection (ops : list Op) :
  let s := run random36 clock ops initial_sys in
  modalVisible (app s) = true ->
  exists r, selectedImage (app s) = Some r /\
    (guarded random36 clock ops initial_sys = true -> id r ∈ ids (images (app s))).
Proof.
  cbv zeta. intros Hopen.
  assert (H0 : viewer_inv (app initial_sys)).
  { split; [done|]. by intros [? ?]. }
  apply (run_viewer_inv ops) in H0. apply H0 in Hopen as [r Hr].
  exists r. split; [done|]. intros Hg.
  apply list_elem_of_fmap. exists r. split; [done|].
  apply (run_selected_listed ops initial_sys); done.
Qed.

(** ** Ids and random draws *)

(** One operation makes some number [k] of draws, and the ids in the list
    afterwards are, in order, ids that were there before or the tokens of
    those draws. *)
Lemma step_ids o s :
  exists k,
    rand_calls (exec (step random36 clock o) s) = (rand_calls s + k)%nat /\
    ids (images (app (exec (step random36 clock o) s)))
      `sublist_of` ids (images (app s)) ++ (token random36 <$> seq (rand_calls s) k).
Proof.
  destruct o as [st r|st r|i c|img|].
  - destruct (pickImage_appends st r s) as (recs & Ha & Hr & Hids).
    exists (length recs). cbn [step]. rewrite Ha, Hr. split; [done|].
    unfold appended, ids in *. cbn. by rewrite fmap_app, Hids.
  - destruct (takePhoto_appends st r s) as (recs & Ha & Hr & Hids).
    exists (length recs). cbn [step]. rewrite Ha, Hr. split; [done|].
    unfold appended, ids in *. cbn. by rewrite fmap_app, Hids.
  - exists 0%nat. cbn [step]. rewrite removeImage_app. split.
    + destruct c; cbn; lia.
    + cbn [seq fmap list_fmap]. rewrite app_nil_r.
      destruct c; cbn [images]; [done|].
      unfold ids. apply fmap_sublist, sublist_filter.
  - exists 0%nat. cbn. split; [lia|]. by rewrite app_nil_r.
  - exists 0%nat. cbn. split; [lia|]. by rewrite app_nil_r.
Qed.

Lemma issued_app s k :
  token random36 <$> seq 0 (rand_calls s + k) =
  issued random36 s ++ (token random36 <$> seq (rand_calls s) k).
Proof. unfold issued. by rewrite seq_app, fmap_app. Qed.

(** The ids handed out only grow, at the end. *)
Lemma run_issued_prefix ops : forall s,
  issued random36 s `prefix_of` issued random36 (run random36 clock ops s).
Proof.
  induction ops as [|o ops IH]; intros s; [done|].
  cbn [run]. etrans; [|apply IH].
  destruct (step_ids o s) as (k & Hr & _).
  unfold issued at 2. rewrite Hr, issued_app. by apply prefix_app_r.
Qed.

(** The ids in the list are, in order, among the ids handed out. *)
Lemma run_ids_issued ops : forall s,
  ids (images (app s)) `sublist_of` issued random36 s ->
  ids (images (app (run random36 clock ops s)))
    `sublist_of` issued random36 (run random36 clock ops s).
Proof.
  induction ops as [|o ops IH]; intros s Hs; [done|].
  cbn [run]. apply IH.
  destruct (step_ids o s) as (k & Hr & Hsub).
  unfold issued at 1. rewrite Hr, issued_app.
  etrans; [exact Hsub|]. by apply sublist_app.
Qed.

(** An id handed out earlier and absent from the list stays absent as
    long as the draws give pairwise different tokens. *)
Lemma run_not_reissued i ops : forall s,
  NoDup (issued random36 (run random36 clock ops s)) ->
  i ∈ issued random36 s -> i ∉ ids (images (app s)) ->
  i ∉ ids (images (app (run random36 clock ops s))).
Proof.
  induction ops as [|o ops IH]; intros s Hnd Hi Hnot; [done|].
  cbn [run] in *.
  destruct (step_ids o s) as (k & Hr & Hsub).
  assert (Hpre := run_issued_prefix ops (exec (step random36 clock o) s)).
  assert (Hnd' : NoDup (issued random36 (exec (step random36 clock o) s))).
  { destruct Hpre as [rest Hrest]. rewrite Hrest in Hnd.
    by apply NoDup_app in Hnd as [? _]. }
  unfold issued in Hnd' at 1. rewrite Hr, issued_app in Hnd'.
  apply NoDup_app in Hnd' as (_ & Hdisj & _).
  apply IH; [done| |].
  - unfold issued at 1. rewrite Hr, issued_app. apply elem_of_app. by left.
  - intros Hin. eapply elem_of_sublist in Hin; [|exact Hsub].
    apply elem_of_app in Hin as [Hin|Hin]; [done|]. by apply (Hdisj i).
Qed.

(** C7 (as amended): after every sequence of operations from the initial
    state, the ids of the records in [images] are pairwise distinct
    provided the random draws made so far gave pairwise distinct tokens
    (first nine characters after "0." of each draw in base 36); under
    the same proviso, an id whose records were removed is not the id of
    any record added later. *)
Theorem ids_distinct_if_tokens_distinct (ops1 ops2 : list Op) (i : string) :
  let s1 := run random36 clock ops1 initial_sys in
  let s3 := run random36 clock (OpRemoveImage i PressRemove :: ops2) s1 in
  (NoDup (issued random36 s1) -> NoDup (ids (images (app s1)))) /\
  (NoDup (issued random36 s3) -> i ∈ ids (images (app s1)) ->
   i ∉ ids (images (app s3))).
Proof.
  cbv zeta.
  assert (Hsub : ids (images (app (run random36 clock ops1 initial_sys)))
                   `sublist_of` issued random36 (run random36 clock ops1 initial_sys)).
  { by apply run_ids_issued. }
  split.
  - intros Hnd. by eapply sublist_NoDup.
  - intros Hnd Hi. cbn [run]. apply run_not_reissued; [done| |].
    + eapply elem_of_sublist in Hi; [|exact Hsub]. done.
    + rewrite step_app. apply filter_id_gone.
Qed.

End Properties.

(** ** Concrete runs *)

(** C1, the claim as stated fails: one photo is taken while the generator
    draws 0.5, its record (id "i") is opened in the lightbox, and its
    removal is confirmed.  The list is empty afterwards, yet the record is
    still selected and the lightbox still open. *)
Lemma removeImage_selected_viewer_not_closed :
  let s := run always_half frozen_clock
             [OpTakePhoto granted one_photo; OpOpenLightbox record_i] initial_sys in
  let s' := exec (removeImage "i" PressRemove) s in
  images (app s) = [record_i] /\ selectedImage (app s) = Some record_i /\
  id record_i = "i" /\
  images (app s') = [] /\
  ~ (selectedImage (app s') = None /\ modalVisible (app s') = false).
Proof.
  cbv zeta. repeat split; try reflexivity.
  intros [H _]. vm_compute in H. discriminate.
Qed.

(** C2, the claim as stated fails: after taking one photo, opening it and
    confirming its removal, the lightbox is open on a record whose id is
    not in the (empty) list. *)
Lemma viewer_open_selected_not_listed :
  let s := run always_half frozen_clock
             [OpTakePhoto granted one_photo; OpOpenLightbox record_i;
              OpRemoveImage "i" PressRemove] initial_sys in
  modalVisible (app s) = true /\
  ~ (exists r, selectedImage (app s) = Some r /\ id r ∈ ids (images (app s))).
Proof.
  cbv zeta. split; [reflexivity|].
  intros (r & _ & Hin).
  replace (images (app _)) with (@nil UploadedImage) in Hin by reflexivity.
  by apply elem_of_nil in Hin.
Qed.

Lemma viewer_open_has_selection_witness :
  let s := run always_half frozen_clock
             [OpTakePhoto granted one_photo; OpOpenLightbox record_i] initial_sys in
  exists r, selectedImage (app s) = Some r /\ id r ∈ ids (images (app s)).
Proof.
  cbv zeta.
  destruct (viewer_open_has_selection always_half frozen_clock
              [OpTakePhoto granted one_photo; OpOpenLightbox record_i])
    as (r & Hr & Hg); [reflexivity|].
  exists r. split; [exact Hr|]. apply Hg. reflexivity.
Defined.

(** C7, the claim as stated fails: two photos taken while the generator
    draws 0.5 both times get the id "i"; and after the first one is
    removed, the id "i" is given to the next photo again. *)
Lemma same_draw_same_id :
  let s := run always_half frozen_clock
             [OpTakePhoto granted one_photo; OpTakePhoto granted one_photo] initial_sys in
  let s' := run always_half frozen_clock
             [OpTakePhoto granted one_photo; OpRemoveImage "i" PressRemove;
              OpTakePhoto granted one_photo] initial_sys in
  ids (images (app s)) = ["i"; "i"] /\ ~ NoDup (ids (images (app s))) /\
  ids (images (app s')) = ["i"].
Proof.
  cbv zeta. split; [reflexivity|]. split; [|reflexivity].
  replace (ids _) with ["i"; "i"] by reflexivity.
  intros Hnd. apply NoDup_cons in Hnd as [Hnot _]. apply Hnot. by left.
Qed.

Lemma ids_distinct_if_tokens_distinct_witness :
  let s1 := run three_draws frozen_clock
              [OpTakePhoto granted one_photo; OpTakePhoto granted one_photo] initial_sys in
  let s3 := run three_draws frozen_clock
              [OpRemoveImage "4fzyo82mv" PressRemove; OpTakePhoto granted one_photo] s1 in
  NoDup (ids (images (app s1))) /\ "4fzyo82mv" ∉ ids (images (app s3)).
Proof.
  cbv zeta.
  destruct (ids_distinct_if_tokens_distinct three_draws frozen_clock
              [OpTakePhoto granted one_photo; OpTakePhoto granted one_photo]
              [OpTakePhoto granted one_photo] "4fzyo82mv") as [H1 H2].
  split.
  - apply H1. apply (bool_decide_unpack _). vm_compute. exact I.
  - apply H2.
    + apply (bool_decide_unpack _). vm_compute. exact I.
    + apply (bool_decide_unpack _). vm_compute. exact I.
Defined.

Lemma pickImage_appends_records_witness :
  let s' := exec (pickImage always_half frozen_clock granted
                    {| canceled := false;
                       assets := Some [asset_a; asset_unnamed; asset_b] |}) initial_sys in
  exists rec1 rec2,
    images (app s') !! 1%nat = Some rec1 /\
    name rec1 = "image_1700000000000.jpg" /\ size rec1 = Some 5 /\
    images (app s') !! 2%nat = Some rec2 /\
    name rec2 = "b.jpg" /\ size rec2 = Some 2097152 /\ uri rec2 = "file:///b".
Proof.
  cbv zeta.
  destruct (pickImage_appends_records always_half frozen_clock
              [asset_a; asset_unnamed; asset_b] None initial_sys)
    as [(recs & Ha & Hlen & Hk) _].
  destruct (Hk 1%nat asset_unnamed eq_refl) as (rec1 & Hrec1 & _ & _ & Hs1 & _ & Hfall).
  destruct (Hfall (or_introl eq_refl)) as (j & _ & Hname).
  destruct (Hk 2%nat asset_b eq_refl) as (rec2 & Hrec2 & _ & Hu & Hs & Hn & _).
  exists rec1, rec2. rewrite Ha. cbn. repeat split.
  - exact Hrec1.
  - rewrite Hname. vm_compute. reflexivity.
  - exact Hs1.
  - exact Hrec2.
  - apply (Hn "b.jpg"); [reflexivity | discriminate].
  - exact Hs.
  - exact Hu.
Defined.

(** ** Formatting a size *)

Section StringFacts.

Lemma string_app_cons (c : Ascii.ascii) (a b : string) :
  String c a +:+ b = String c (a +:+ b).
Proof. reflexivity. Qed.

Lemma string_app_nil_l (b : string) : "" +:+ b = b.
Proof. reflexivity. Qed.

Lemma string_length_app (a b : string) :
  String.length (a +:+ b) = (String.length a + String.length b)%nat.
Proof.
  induction a as [|c a IH]; [done|].
  rewrite string_app_cons. simpl. by f_equal.
Qed.

Lemma string_app_assoc (a b c : string) : (a +:+ b) +:+ c = a +:+ b +:+ c.
Proof.
  induction a as [|x a IH]; [done|].
  rewrite !string_app_cons. by f_equal.
Qed.

Lemma substring_whole (b : string) : String.substring 0 (String.length b) b = b.
Proof. induction b as [|c b IH]; simpl; [done|by f_equal]. Qed.

Lemma substring_app_l (a b : string) :
  String.substring 0 (String.length a) (a +:+ b) = a.
Proof.
  induction a as [|c a IH]; [by destruct b|].
  rewrite string_app_cons. simpl. by f_equal.
Qed.

Lemma substring_app_r (a b : string) :
  String.substring (String.length a) (String.length b) (a +:+ b) = b.
Proof.
  induction a as [|c a IH]; [apply substring_whole|].
  rewrite string_app_cons. simpl. done.
Qed.

(** The digits of a positive number, most significant first. *)
Lemma pretty_N_go_app (x : N) : forall s, pretty_N_go x s = pretty_N_go x "" +:+ s.
Proof.
  induction (N.lt_wf_0 x) as [x _ IH]; intros s.
  destruct (decide (x = 0)%N) as [->|Hx]; [by rewrite !pretty_N_go_0|].
  rewrite !(pretty_N_go_step x) by lia.
  assert (Hlt : (x `div` 10 < x)%N) by (apply N.div_lt; lia).
  rewrite (IH _ Hlt (String _ s)), (IH _ Hlt (String _ "")).
  by rewrite string_app_assoc.
Qed.

Lemma pretty_N_small (n : N) :
  (n < 10)%N -> pretty n = String (pretty_N_char n) "".
Proof.
  intros Hn. unfold pretty, pretty_N. case_decide as H0; [by subst|].
  rewrite pretty_N_go_step by lia.
  rewrite N.div_small, N.mod_small, pretty_N_go_0 by lia. done.
Qed.

Lemma pretty_N_snoc (n : N) :
  (10 <= n)%N ->
  pretty n = pretty (n / 10)%N +:+ String (pretty_N_char (n mod 10)%N) "".
Proof.
  intros Hn. unfold pretty, pretty_N.
  assert (0 < n / 10)%N by (apply N.div_str_pos; lia).
  rewrite !decide_False by lia.
  rewrite pretty_N_go_step, pretty_N_go_app by lia. done.
Qed.

Lemma pretty_N_nonempty (n : N) : (1 <= String.length (pretty n))%nat.
Proof.
  destruct (decide (n < 10)%N).
  - rewrite pretty_N_small by done. cbn. lia.
  - rewrite pretty_N_snoc, string_length_app by lia. cbn. lia.
Qed.

End StringFacts.

Section ToFixed.

(** Padding the digits of [n] to three places and putting the point
    before the last two gives integer part, point, two digits. *)
Lemma point_before_last_two (n : N) :
  let m := pretty n in
  let m' := if (String.length m <=? 2)%nat
            then String.concat "" (replicate (3 - String.length m) "0") +:+ m
            else m in
  String.substring 0 (String.length m' - 2) m' +:+ "." +:+
    String.substring (String.length m' - 2) 2 m' =
  pretty (n / 100)%N +:+ "." +:+
    String (pretty_N_char (n / 10 mod 10)%N) (String (pretty_N_char (n mod 10)%N) "").
Proof.
  cbv zeta.
  destruct (decide (n < 10)%N) as [H10|H10];
    [|destruct (decide (n < 100)%N) as [H100|H100]].
  - rewrite (pretty_N_small n) by done.
    rewrite (N.div_small n 100), (N.div_small n 10), (N.mod_small n 10) by lia.
    reflexivity.
  - assert (n / 10 < 10)%N by (apply N.Div0.div_lt_upper_bound; lia).
    rewrite (pretty_N_snoc n), (pretty_N_small (n / 10)) by lia.
    rewrite (N.div_small n 100), (N.mod_small (n / 10) 10) by lia.
    reflexivity.
  - assert (10 <= n / 10)%N by (apply N.div_le_lower_bound; lia).
    assert (Hdd : (n / 10 / 10 = n / 100)%N) by (by rewrite N.Div0.div_div).
    rewrite (pretty_N_snoc n), (pretty_N_snoc (n / 10)), Hdd by lia.
    rewrite string_app_assoc, string_app_cons, string_app_nil_l.
    set (a := pretty (n / 100)%N).
    set (b := String (pretty_N_char (n / 10 mod 10)%N)
                (String (pretty_N_char (n mod 10)%N) "")).
    pose proof (pretty_N_nonempty (n / 100)) as Ha. fold a in Ha.
    assert (Hlen : String.length (a +:+ b) = (String.length a + 2)%nat)
      by (by rewrite string_length_app).
    rewrite Hlen.
    replace (String.length a + 2 <=? 2)%nat with false
      by (symmetry; apply Nat.leb_gt; lia).
    rewrite Hlen.
    replace (String.length a + 2 - 2)%nat with (String.length a) by lia.
    rewrite substring_app_l.
    change 2%nat with (String.length b) at 1.
    by rewrite substring_app_r.
Qed.

Lemma toFixed2_two_decimals (x : Q) :
  toFixed2 x =
  two_decimals (if Qlt_le_dec x 0%Q then true else false)
               (Z.to_N (Qfloor (Qabs x * 100 + (1 # 2))%Q)).
Proof.
  unfold toFixed2, two_decimals. cbv zeta.
  rewrite <- point_before_last_two.
  by destruct (Qlt_le_dec x 0%Q).
Qed.

(** The scaled, rounded magnitude of [b / 1024 / 1024]. *)
Lemma hundredths_of_bytes (b : Z) :
  Qfloor (Qabs (inject_Z b / 1024 / 1024) * 100 + (1 # 2))%Q =
  (200 * Z.abs b + 1048576) / 2097152.
Proof.
  transitivity (Qfloor ((200 * Z.abs b + 1048576) # 2097152)); [|reflexivity].
  apply Qfloor_comp.
  unfold Qeq, Qabs, Qdiv, Qinv, Qmult, Qplus, inject_Z. simpl. lia.
Qed.

End ToFixed.

(** C3: [formatFileSize] returns "Unknown size" for an absent and for a
    zero byte count; for any other byte count [b] (an integer a JavaScript
    number holds exactly, below 2^53 in magnitude) it returns the number of
    hundredths nearest to [b / 1048576], written with exactly two decimals,
    followed by " MB".  In particular [formatFileSize(undefined)] is
    "Unknown size", [formatFileSize(1048576)] is "1.00 MB" and
    [formatFileSize(1572864)] is "1.50 MB". *)
Theorem formatFileSize_spec :
  formatFileSize None = "Unknown size" /\
  formatFileSize (Some 0) = "Unknown size" /\
  (forall b : Z, b <> 0 -> Z.abs b < 2 ^ 53 ->
     exists n, nearest_hundredth n b /\
       formatFileSize (Some b) = two_decimals (bool_decide (b < 0)) n +:+ " MB") /\
  formatFileSize (Some 1048576) = "1.00 MB" /\
  formatFileSize (Some 1572864) = "1.50 MB".
Proof.
  split; [reflexivity|]. split; [reflexivity|]. split; [|by vm_compute].
  intros b Hb _.
  unfold formatFileSize. rewrite decide_False by done.
  rewrite toFixed2_two_decimals, hundredths_of_bytes.
  exists (Z.to_N ((200 * Z.abs b + 1048576) / 2097152)). split.
  - unfold nearest_hundredth.
    rewrite Z2N.id by (apply Z.div_pos; lia).
    pose proof (Z.div_mod (200 * Z.abs b + 1048576) 2097152 ltac:(lia)) as Hdm.
    pose proof (Z.mod_pos_bound (200 * Z.abs b + 1048576) 2097152 ltac:(lia)) as Hr.
    lia.
  - do 2 f_equal.
    destruct (Qlt_le_dec _ _) as [Hlt|Hle]; case_bool_decide as Hneg; try done; exfalso.
    + unfold Qlt, Qdiv, Qinv, Qmult, inject_Z in Hlt. simpl in Hlt. lia.
    + unfold Qle, Qdiv, Qinv, Qmult, inject_Z in Hle. simpl in Hle. lia.
Qed.

Lemma formatFileSize_spec_witness :
  exists n, nearest_hundredth n 2097152 /\
    formatFileSize (Some 2097152) = two_decimals false n +:+ " MB".
Proof.
  destruct formatFileSize_spec as (_ & _ & H & _).
  apply (H 2097152); [discriminate | reflexivity].
Defined.

(** * Further properties of the handlers *)

Section Further.

Variable random36 : nat -> string.
Variable clock : nat -> Z.

Lemma substring_length_le (s : string) : forall n m,
  (String.length (String.substring n m s) <= m)%nat.
Proof.
  induction s as [|c s IH]; intros [|n] [|m]; simpl; try lia.
  - specialize (IH 0%nat m). lia.
  - apply IH.
  - apply IH.
Qed.

Lemma stamp_nonempty (prefix rest : string) : prefix +:+ "_" +:+ rest <> "".
Proof.
  intros H. apply (f_equal String.length) in H.
  rewrite string_length_app, string_app_cons in H. simpl in H. lia.
Qed.

Lemma make_image_good prefix asset s rec s' :
  make_image random36 clock prefix asset s = (rec, s') ->
  same_data asset rec /\ well_formed rec.
Proof.
  intros E.
  destruct (make_image_spec _ _ _ _ _ _ _ E) as (_ & _ & _ & _ & Hid & Hu & Hs & Hn & Hf).
  repeat split; try done.
  - destruct (fileName asset) as [n|] eqn:En.
    + destruct (decide (n = "")) as [->|Hne].
      * destruct Hf as (j & _ & ->); [by right|]. apply stamp_nonempty.
      * by rewrite (Hn n).
    + destruct Hf as (j & _ & ->); [by left|]. apply stamp_nonempty.
  - rewrite Hid. unfold token. apply substring_length_le.
Qed.

Lemma mapM_make_image_good prefix l : forall s recs s',
  mapM (make_image random36 clock prefix) l s = (recs, s') ->
  Forall2 (fun a r => same_data a r /\ well_formed r) l recs.
Proof.
  induction l as [|a l IH]; intros s recs s' E.
  - injection E as <- <-. constructor.
  - cbn [mapM] in E. unfold bind, ret in E.
    destruct (make_image random36 clock prefix a s) as [rec s1] eqn:E1.
    destruct (mapM (make_image random36 clock prefix) l s1) as [recs1 s2] eqn:E2.
    injection E as <- <-.
    constructor; [by eapply make_image_good|by eapply IH].
Qed.

(** What [pickImage] does to the React state and to the log, for every
    answer of the platform. *)
Lemma pickImage_summary status result s :
  exists recs,
    app (exec (pickImage random36 clock status result) s) = appended (app s) recs /\
    Forall2 (fun a r => same_data a r /\ well_formed r)
      (accepted (OpPickImage status result)) recs /\
    log (exec (pickImage random36 clock status result) s) =
      log s ++ [RequestMediaLibraryPermissions;
                launch_or_alert status LaunchImageLibrary
                  "Sorry, we need camera roll permissions to upload images!"].
Proof.
  unfold launch_or_alert.
  destruct (decide (status = granted)) as [->|Hs].
  - unfold exec. rewrite pickImage_granted. cbn [accepted].
    destruct (canceled result); cbn [negb];
      [exists []; cbn; rewrite appended_nil, <- app_assoc; by repeat split|].
    destruct (assets result) as [l|];
      [|exists []; cbn; rewrite appended_nil, <- app_assoc; by repeat split].
    unfold bind.
    destruct (mapM (make_image random36 clock "image") l (library_launched s))
      as [recs s1] eqn:E.
    destruct (mapM_make_image_spec _ _ _ _ _ _ _ E) as (Ha & Hl & _).
    exists recs. cbn in *. rewrite Ha, Hl, <- app_assoc.
    split; [done|]. split; [by eapply mapM_make_image_good|done].
  - rewrite pickImage_not_granted by done.
    exists []. cbn. rewrite appended_nil.
    destruct status; try done; by repeat split.
Qed.

(** The same for [takePhoto]. *)
Lemma takePhoto_summary status result s :
  exists recs,
    app (exec (takePhoto random36 clock status result) s) = appended (app s) recs /\
    Forall2 (fun a r => same_data a r /\ well_formed r)
      (accepted (OpTakePhoto status result)) recs /\
    log (exec (takePhoto random36 clock status result) s) =
      log s ++ [RequestCameraPermissions;
                launch_or_alert status LaunchCamera
                  "Sorry, we need camera permissions to take photos!"].
Proof.
  unfold launch_or_alert.
  destruct (decide (status = granted)) as [->|Hs].
  - unfold exec. rewrite takePhoto_granted. cbn [accepted].
    destruct (canceled result); cbn [negb];
      [exists []; cbn; rewrite appended_nil, <- app_assoc; by repeat split|].
    destruct (assets result) as [[|a l]|];
      try (exists []; cbn; rewrite appended_nil, <- app_assoc; by repeat split).
    unfold bind.
    destruct (make_image random36 clock "photo" a (camera_launched s))
      as [rec s1] eqn:E.
    destruct (make_image_spec _ _ _ _ _ _ _ E) as (Ha & Hl & _).
    pose proof (make_image_good _ _ _ _ _ E) as Hgood.
    exists [rec]. cbn in Ha, Hl |- *. rewrite Ha, Hl, <- app_assoc.
    split; [done|]. split; [|done].
    constructor; [done|constructor].
  - rewrite takePhoto_not_granted by done.
    exists []. cbn. rewrite appended_nil.
    destruct status; try done; by repeat split.
Qed.

(** ** Taking a photo *)

(** X1: with the camera permission granted and a result that is not
    cancelled, [takePhoto] appends one record, built from the first asset
    with one random draw and the [photo] name prefix, whatever other
    assets the result holds; an empty or missing asset list, or a
    cancelled result, leaves the React state as it was. *)
Theorem takePhoto_first_asset_only (a : ImagePickerAsset)
    (rest : list ImagePickerAsset) (o : option (list ImagePickerAsset)) (s : Sys) :
  let s' := exec (takePhoto random36 clock granted
                    {| canceled := false; assets := Some (a :: rest) |}) s in
  (exists rec,
     app s' = appended (app s) [rec] /\
     rand_calls s' = S (rand_calls s) /\
     built_from random36 clock "photo" (rand_calls s) (now_calls s) (now_calls s') a rec) /\
  app (exec (takePhoto random36 clock granted
               {| canceled := false; assets := Some [] |}) s) = app s /\
  app (exec (takePhoto random36 clock granted
               {| canceled := false; assets := None |}) s) = app s /\
  app (exec (takePhoto random36 clock granted
               {| canceled := true; assets := o |}) s) = app s.
Proof.
  cbv zeta. unfold exec. rewrite !takePhoto_granted. cbn [canceled assets negb].
  split; [|by repeat split].
  unfold bind.
  destruct (make_image random36 clock "photo" a (camera_launched s))
    as [rec s1] eqn:E.
  destruct (make_image_spec _ _ _ _ _ _ _ E) as (Ha & _ & Hr & _ & Hb).
  exists rec. cbn in Ha, Hr |- *. rewrite Ha.
  split; [done|]. split; [done|]. exact Hb.
Qed.

(** ** The "Add Image" dialog *)

(** X2: whatever button is pressed in the "Add Image" dialog and whatever
    the platform answers, the dialog is logged first, the records already
    in [images] stay where they are (the old list is a prefix of the new
    one) and the lightbox is not touched; with "Cancel" the React state is
    the one from before and nothing else is logged. *)
Theorem add_dialog_keeps_existing (choice : AddChoice) (status : PermissionStatus)
    (result : ImagePickerResult) (s : Sys) :
  let shown := AlertShown "Add Image" "Choose an option"
                 ["Camera"; "Photo Library"; "Cancel"] in
  let s' := exec (showImageOptions random36 clock choice status result) s in
  let s0 := exec (showImageOptions random36 clock ChooseCancel status result) s in
  (log s ++ [shown]) `prefix_of` log s' /\
  images (app s) `prefix_of` images (app s') /\
  selectedImage (app s') = selectedImage (app s) /\
  modalVisible (app s') = modalVisible (app s) /\
  app s0 = app s /\ log s0 = log s ++ [shown].
Proof.
  cbv zeta. split; [|split; [|split; [|split; [|by split]]]].
  all: destruct choice; unfold showImageOptions, exec, bind, Alert_alert, emit;
    cbn [fst snd];
    match goal with
    | |- context [takePhoto _ _ ?st ?r ?s0] =>
        destruct (takePhoto_summary st r s0) as (recs & Ha & _ & Hl);
        unfold exec in Ha, Hl; rewrite ?Ha, ?Hl
    | |- context [pickImage _ _ ?st ?r ?s0] =>
        destruct (pickImage_summary st r s0) as (recs & Ha & _ & Hl);
        unfold exec in Ha, Hl; rewrite ?Ha, ?Hl
    | _ => idtac
    end; cbn; try done; try (by apply prefix_app_r); by eexists.
Qed.

(** ** Permission requests *)

(** X3: [pickImage] and [takePhoto] each make one permission request and
    then do one of two things: launch the picker (camera) when the answer
    is [granted], show the "Permission Required" alert for any other
    answer; they log nothing else.  For an answer other than [granted],
    [undetermined] included, the React state is the one from before. *)
Theorem request_then_launch_or_alert (status : PermissionStatus)
    (result : ImagePickerResult) (s : Sys) :
  log (exec (pickImage random36 clock status result) s) =
    log s ++ [RequestMediaLibraryPermissions;
              launch_or_alert status LaunchImageLibrary
                "Sorry, we need camera roll permissions to upload images!"] /\
  log (exec (takePhoto random36 clock status result) s) =
    log s ++ [RequestCameraPermissions;
              launch_or_alert status LaunchCamera
                "Sorry, we need camera permissions to take photos!"] /\
  (status <> granted ->
   app (exec (pickImage random36 clock status result) s) = app s /\
   app (exec (takePhoto random36 clock status result) s) = app s).
Proof.
  destruct (pickImage_summary status result s) as (? & _ & _ & Hp).
  destruct (takePhoto_summary status result s) as (? & _ & _ & Ht).
  repeat split; try done.
  - by rewrite pickImage_not_granted.
  - by rewrite takePhoto_not_granted.
Qed.

(** ** The lightbox *)

(** X4: after every sequence of operations from the initial state the
    selection and the lightbox flag agree: a record is selected exactly
    when the lightbox is open, so a closed lightbox never keeps a stale
    selection. *)
Theorem selection_matches_lightbox (ops : list Op) :
  let a := app (run random36 clock ops initial_sys) in
  match selectedImage a with
  | Some _ => modalVisible a = true
  | None => modalVisible a = false
  end.
Proof.
  cbv zeta.
  assert (H0 : viewer_inv (app initial_sys)).
  { split; [done|]. by intros [? ?]. }
  apply (run_viewer_inv random36 clock ops) in H0. destruct H0 as [H1 H2].
  destruct (selectedImage _) as [r|].
  - apply H2. by exists r.
  - destruct (modalVisible _); [|done].
    destruct H1 as [? [=]]. done.
Qed.

(** X5: in a state reached from the initial state with the lightbox
    closed, opening the lightbox on any record and closing it again gives
    back the React state from before. *)
Theorem open_then_close_restores (ops : list Op) (img : UploadedImage) :
  let s := run random36 clock ops initial_sys in
  modalVisible (app s) = false ->
  app (exec closeLightbox (exec (openLightbox img) s)) = app s.
Proof.
  cbv zeta. intros Hclosed.
  assert (H0 : viewer_inv (app initial_sys)).
  { split; [done|]. by intros [? ?]. }
  apply (run_viewer_inv random36 clock ops) in H0. destruct H0 as [_ H2].
  set (s := run random36 clock ops initial_sys) in *.
  change (app (exec closeLightbox (exec (openLightbox img) s)))
    with {| images := images (app s); selectedImage := None; modalVisible := false |}.
  destruct (app s) as [l sel vis]. cbn in *. subst vis.
  destruct sel as [r|]; [|done].
  by specialize (H2 (ex_intro _ r eq_refl)).
Qed.

(** ** Records and assets *)

Lemma step_well_formed o s :
  Forall well_formed (images (app s)) ->
  Forall well_formed (images (app (exec (step random36 clock o) s))).
Proof.
  intros Hwf. rewrite step_app.
  destruct o as [st r|st r|i []|img|]; cbn [images]; try done.
  - destruct (pickImage_summary st r s) as (recs & -> & HF & _). cbn.
    apply Forall_app. split; [done|].
    apply Forall2_Forall_r with (P := fun a r => same_data a r /\ well_formed r)
                                (l := accepted (OpPickImage st r)); [done|].
    apply Forall_forall. by intros ? _ ? [_ ?].
  - destruct (takePhoto_summary st r s) as (recs & -> & HF & _). cbn.
    apply Forall_app. split; [done|].
    apply Forall2_Forall_r with (P := fun a r => same_data a r /\ well_formed r)
                                (l := accepted (OpTakePhoto st r)); [done|].
    apply Forall_forall. by intros ? _ ? [_ ?].
  - rewrite Forall_forall in Hwf. apply Forall_forall.
    intros x [_ Hx]%list_elem_of_filter. by apply Hwf.
Qed.

Lemma run_well_formed ops : forall s,
  Forall well_formed (images (app s)) ->
  Forall well_formed (images (app (run random36 clock ops s))).
Proof.
  induction ops as [|o ops IH]; intros s Hwf; [done|].
  cbn [run]. by apply IH, step_well_formed.
Qed.

(** X6: after every sequence of operations from the initial state, every
    record in [images] has an id of at most nine characters. *)
Theorem ids_at_most_nine_chars (ops : list Op) :
  Forall (fun r => (String.length (id r) <= 9)%nat)
    (images (app (run random36 clock ops initial_sys))).
Proof.
  eapply Forall_impl; [apply run_well_formed; constructor|].
  by intros r [_ ?].
Qed.

(** X7: after every sequence of operations from the initial state, no
    record in [images] has an empty name: an asset without file name, or
    with an empty one, gets the time-stamped name. *)
Theorem names_never_empty (ops : list Op) :
  Forall (fun r => name r <> "")
    (images (app (run random36 clock ops initial_sys))).
Proof.
  eapply Forall_impl; [apply run_well_formed; constructor|].
  by intros r [? _].
Qed.

Lemma same_data_fmap (l : list ImagePickerAsset) (recs : list UploadedImage) :
  Forall2 (fun a r => same_data a r /\ well_formed r) l recs ->
  record_data <$> recs = asset_data <$> l.
Proof.
  induction 1 as [|a r l recs [[Hu Hs] _] _ IH]; [done|].
  cbn. rewrite IH. unfold record_data, asset_data. by rewrite Hu, Hs.
Qed.

Lemma step_data o s :
  (record_data <$> images (app (exec (step random36 clock o) s)))
    `sublist_of` (record_data <$> images (app s)) ++ (asset_data <$> accepted o) /\
  (is_removal o = false ->
   record_data <$> images (app (exec (step random36 clock o) s)) =
   (record_data <$> images (app s)) ++ (asset_data <$> accepted o)).
Proof.
  rewrite step_app.
  destruct o as [st r|st r|i []|img|]; cbn [images is_removal].
  - destruct (pickImage_summary st r s) as (recs & -> & HF & _). cbn [appended images].
    rewrite fmap_app, (same_data_fmap _ _ HF). by split.
  - destruct (takePhoto_summary st r s) as (recs & -> & HF & _). cbn [appended images].
    rewrite fmap_app, (same_data_fmap _ _ HF). by split.
  - cbn. rewrite app_nil_r. by split.
  - cbn. rewrite app_nil_r. split; [|done]. apply fmap_sublist, sublist_filter.
  - cbn. rewrite app_nil_r. by split.
  - cbn. rewrite app_nil_r. by split.
Qed.

Lemma run_data ops : forall s,
  (record_data <$> images (app (run random36 clock ops s)))
    `sublist_of` (record_data <$> images (app s))
                 ++ (asset_data <$> concat (accepted <$> ops)) /\
  (forallb (fun o => negb (is_removal o)) ops = true ->
   record_data <$> images (app (run random36 clock ops s)) =
   (record_data <$> images (app s)) ++ (asset_data <$> concat (accepted <$> ops))).
Proof.
  induction ops as [|o ops IH]; intros s.
  - cbn. rewrite app_nil_r. by split.
  - cbn [run fmap list_fmap concat forallb].
    destruct (IH (exec (step random36 clock o) s)) as [Hsub Heq].
    destruct (step_data o s) as [Hsub1 Heq1].
    rewrite fmap_app, app_assoc. split.
    + etrans; [exact Hsub|]. by apply sublist_app.
    + intros [Ho Hrest]%andb_true_iff. apply negb_true_iff in Ho.
      by rewrite (Heq Hrest), (Heq1 Ho).
Qed.

(** X8: after every sequence of operations from the initial state, the
    records in [images] carry, in order, the locators and byte counts of
    assets that were accepted (every asset of a granted library pick, the
    first asset of a granted capture), each accepted asset at most once;
    when no removal was confirmed in the sequence they carry those of all
    accepted assets, call after call and in the picker's order within a
    call. *)
Theorem records_follow_accepted_assets (ops : list Op) :
  let l := images (app (run random36 clock ops initial_sys)) in
  let offered := concat (accepted <$> ops) in
  (record_data <$> l) `sublist_of` (asset_data <$> offered) /\
  (forallb (fun o => negb (is_removal o)) ops = true ->
   record_data <$> l = asset_data <$> offered).
Proof.
  cbv zeta. destruct (run_data ops initial_sys) as [Hsub Heq]. by split.
Qed.

End Further.

Lemma takePhoto_first_asset_only_witness :
  exists rec,
    images (app (exec (takePhoto three_draws frozen_clock granted
                         {| canceled := false;
                            assets := Some [asset_unnamed; asset_b] |}) initial_sys)) = [rec] /\
    id rec = "4fzyo82mv" /\ name rec = "photo_1700000000000.jpg" /\ size rec = Some 5.
Proof.
  destruct (takePhoto_first_asset_only three_draws frozen_clock
              asset_unnamed [asset_b] None initial_sys)
    as [(rec & Ha & _ & Hid & _ & Hs & _ & Hfall) _].
  destruct (Hfall (or_introl eq_refl)) as (j & _ & Hname).
  exists rec. rewrite Ha. repeat split.
  - exact Hid.
  - rewrite Hname. vm_compute. reflexivity.
  - exact Hs.
Defined.

Lemma request_then_launch_or_alert_witness :
  app (exec (pickImage always_half frozen_clock undetermined one_photo) viewing_b)
    = app viewing_b /\
  app (exec (takePhoto always_half frozen_clock undetermined one_photo) viewing_b)
    = app viewing_b.
Proof.
  destruct (request_then_launch_or_alert always_half frozen_clock
              undetermined one_photo viewing_b) as (_ & _ & H).
  apply H. discriminate.
Defined.

Lemma open_then_close_restores_witness :
  let s := run always_half frozen_clock
             [OpTakePhoto granted one_photo; OpOpenLightbox record_i; OpCloseLightbox]
             initial_sys in
  app (exec closeLightbox (exec (openLightbox record_a) s)) = app s.
Proof.
  apply (open_then_close_restores always_half frozen_clock
           [OpTakePhoto granted one_photo; OpOpenLightbox record_i; OpCloseLightbox]
           record_a).
  reflexivity.
Defined.

Lemma records_follow_accepted_assets_witness :
  record_data <$> images (app (run three_draws frozen_clock
      [OpPickImage granted {| canceled := false; assets := Some [asset_a; asset_b] |};
       OpTakePhoto denied one_photo;
       OpTakePhoto granted {| canceled := false;
                              assets := Some [asset_unnamed; asset_a] |}]
      initial_sys))
  = [("file:///a", None); ("file:///b", Some 2097152); ("file:///c", Some 5)].
Proof.
  destruct (records_follow_accepted_assets three_draws frozen_clock
      [OpPickImage granted {| canceled := false; assets := Some [asset_a; asset_b] |};
       OpTakePhoto denied one_photo;
       OpTakePhoto granted {| canceled := false;
                              assets := Some [asset_unnamed; asset_a] |}])
    as [_ H].
  apply H. reflexivity.
Defined.

(** ** Removal, once more *)

(** X9: a confirmed [removeImage] for an id that no record carries leaves
    the React state as it was. *)
Theorem removeImage_absent_id (i : string) (s : Sys) :
  i ∉ ids (images (app s)) ->
  app (exec (removeImage i PressRemove) s) = app s.
Proof.
  intros Hnot. rewrite removeImage_app.
  rewrite filter_keeps_all; [apply AppState_eta|].
  apply Forall_forall. intros x Hx Heq. apply Hnot.
  apply list_elem_of_fmap. by exists x.
Qed.

Lemma removeImage_absent_id_witness :
  app (exec (removeImage "zz" PressRemove) viewing_b) = app viewing_b.
Proof.
  apply removeImage_absent_id.
  apply (bool_decide_unpack _). vm_compute. exact I.
Defined.

(** X10: two confirmed removals can be made in either order: the React
    state is the same, and it holds the records that carry neither id. *)
Theorem removeImage_commutes (i j : string) (s : Sys) :
  let sij := exec (removeImage j PressRemove) (exec (removeImage i PressRemove) s) in
  let sji := exec (removeImage i PressRemove) (exec (removeImage j PressRemove) s) in
  app sij = app sji /\
  images (app sij) = filter (fun img => id img <> i /\ id img <> j) (images (app s)).
Proof.
  cbv zeta. rewrite !removeImage_app. cbn [images selectedImage modalVisible].
  rewrite !list_filter_filter. split.
  - f_equal. apply list_filter_iff. tauto.
  - apply list_filter_iff. tauto.
Qed.

(** ** Formatting a size, special cases *)

Lemma toFixed2_sign (b : Z) :
  (if Qlt_le_dec (inject_Z b / 1024 / 1024)%Q 0%Q then true else false) =
  bool_decide (b < 0).
Proof.
  destruct (Qlt_le_dec _ _) as [Hlt|Hle]; case_bool_decide as Hneg; try done; exfalso.
  - unfold Qlt, Qdiv, Qinv, Qmult, inject_Z in Hlt. simpl in Hlt. lia.
  - unfold Qle, Qdiv, Qinv, Qmult, inject_Z in Hle. simpl in Hle. lia.
Qed.

(** [formatFileSize] on a non-zero byte count, in terms of the rounded
    number of hundredths. *)
Lemma formatFileSize_nonzero (b : Z) :
  b <> 0 ->
  formatFileSize (Some b) =
  two_decimals (bool_decide (b < 0))
    (Z.to_N ((200 * Z.abs b + 1048576) / 2097152)) +:+ " MB".
Proof.
  intros Hb. unfold formatFileSize. rewrite decide_False by done.
  by rewrite toFixed2_two_decimals, hundredths_of_bytes, toFixed2_sign.
Qed.

(** X11: a whole number [k] of megabytes (below 2^53 bytes) is shown as
    the decimal digits of [k] followed by ".00 MB". *)
Theorem formatFileSize_whole_megabytes (k : Z) :
  0 < k -> k * 1048576 < 2 ^ 53 ->
  formatFileSize (Some (k * 1048576)) = pretty (Z.to_N k) +:+ ".00 MB".
Proof.
  intros Hk _. rewrite formatFileSize_nonzero by lia.
  rewrite bool_decide_eq_false_2 by lia.
  replace ((200 * Z.abs (k * 1048576) + 1048576) / 2097152) with (100 * k)
    by (apply (Z.div_unique _ _ _ 1048576); lia).
  unfold two_decimals.
  replace (Z.to_N (100 * k)) with (Z.to_N k * 100)%N by lia.
  rewrite N.div_mul by lia.
  assert (H10 : (Z.to_N k * 100 / 10 = Z.to_N k * 10)%N)
    by (symmetry; apply (N.div_unique _ _ _ 0%N); lia).
  assert (H0 : (Z.to_N k * 100 mod 10 = 0)%N)
    by (replace (Z.to_N k * 100)%N with (Z.to_N k * 10 * 10)%N by lia;
        apply N.Div0.mod_mul).
  rewrite H10, H0, N.Div0.mod_mul.
  rewrite string_app_nil_l, string_app_assoc. reflexivity.
Qed.

Lemma formatFileSize_whole_megabytes_witness :
  formatFileSize (Some (3 * 1048576)) = "3.00 MB".
Proof.
  rewrite (formatFileSize_whole_megabytes 3); [reflexivity | lia | reflexivity].
Defined.

(** X12: a negative byte count (above -2^53) is shown as a minus sign
    followed by what its magnitude is shown as. *)
Theorem formatFileSize_negative (b : Z) :
  b < 0 -> - 2 ^ 53 < b ->
  formatFileSize (Some b) = "-" +:+ formatFileSize (Some (- b)).
Proof.
  intros Hb _. rewrite !formatFileSize_nonzero by lia.
  rewrite Z.abs_opp, bool_decide_eq_true_2, bool_decide_eq_false_2 by lia.
  unfold two_decimals. by rewrite string_app_nil_l, string_app_cons.
Qed.

Lemma formatFileSize_negative_witness :
  formatFileSize (Some (- 1572864)) = "-" +:+ formatFileSize (Some 1572864).
Proof.
  apply (formatFileSize_negative (- 1572864)); reflexivity.
Defined.

(** Only zero hundredths are printed as "0.00". *)
Lemma two_decimals_zero (n : N) :
  two_decimals false n +:+ " MB" = "0.00 MB" -> n = 0%N.
Proof.
  unfold two_decimals.
  rewrite string_app_nil_l, string_app_assoc.
  repeat (rewrite string_app_cons || rewrite string_app_nil_l).
  intros H.
  assert (Hlen : String.length (pretty (n / 100)%N) = 1%nat).
  { apply (f_equal String.length) in H.
    rewrite string_length_app in H. cbn in H. lia. }
  destruct (pretty (n / 100)%N) as [|c [|c' rest]] eqn:Hq; try discriminate Hlen.
  rewrite string_app_cons, string_app_nil_l in H.
  injection H as -> H1 H0.
  assert (Hq0 : (n / 100 = 0)%N) by (by apply (inj pretty)).
  apply (pretty_N_char_inj _ 0%N) in H1; [|by apply N.mod_lt|lia].
  apply (pretty_N_char_inj _ 0%N) in H0; [|by apply N.mod_lt|lia].
  apply N.div_small_iff in Hq0; [|lia].
  assert (n / 10 < 10)%N by (apply N.Div0.div_lt_upper_bound; lia).
  rewrite N.mod_small in H1 by done.
  apply N.div_small_iff in H1; [|lia].
  rewrite N.mod_small in H0 by done. done.
Qed.

(** X13: a positive byte count (below 2^53) is shown as "0.00 MB" exactly
    when it is at most 5242, that is, below half a hundredth of a
    megabyte. *)
Theorem formatFileSize_shows_zero (b : Z) :
  0 < b -> b < 2 ^ 53 ->
  formatFileSize (Some b) = "0.00 MB" <-> b <= 5242.
Proof.
  intros Hb _. rewrite formatFileSize_nonzero by lia.
  rewrite bool_decide_eq_false_2, Z.abs_eq by lia. split.
  - intros H%two_decimals_zero.
    destruct (decide (b <= 5242)) as [|Hbig]; [done|exfalso].
    assert (1 <= (200 * b + 1048576) / 2097152)
      by (apply Z.div_le_lower_bound; lia).
    lia.
  - intros Hsmall. rewrite Z.div_small by lia. reflexivity.
Qed.

Lemma formatFileSize_shows_zero_witness :
  formatFileSize (Some 5242) = "0.00 MB" /\ formatFileSize (Some 5243) <> "0.00 MB".
Proof.
  split.
  - apply (formatFileSize_shows_zero 5242); [reflexivity | reflexivity | discriminate].
  - intros H. apply (formatFileSize_shows_zero 5243) in H; [|reflexivity|reflexivity].
    by apply H.
Defined.

(** ** Random draws and clock readings *)

Section Counting.

Variable random36 : nat -> string.
Variable clock : nat -> Z.

Lemma make_image_counts prefix asset s rec s' :
  make_image random36 clock prefix asset s = (rec, s') ->
  rand_calls s' = S (rand_calls s) /\
  now_calls s' = (now_calls s + unnamed [asset])%nat.
Proof.
  unfold make_image, bind, random_id, name_or_stamp, unnamed.
  rewrite filter_cons, filter_nil.
  destruct (truthy_string (fileName asset)) as [n|] eqn:En; cbn.
  - intros [= <- <-]. cbn. rewrite decide_False by done. cbn. split; lia.
  - intros [= <- <-]. cbn. rewrite decide_True by done. cbn. split; lia.
Qed.

Lemma unnamed_cons a l : unnamed (a :: l) = (unnamed [a] + unnamed l)%nat.
Proof.
  unfold unnamed. rewrite !filter_cons, filter_nil.
  by destruct (decide (truthy_string (fileName a) = None)).
Qed.

Lemma unnamed_app l1 l2 : unnamed (l1 ++ l2) = (unnamed l1 + unnamed l2)%nat.
Proof. unfold unnamed. by rewrite filter_app, length_app. Qed.

Lemma mapM_make_image_counts prefix l : forall s recs s',
  mapM (make_image random36 clock prefix) l s = (recs, s') ->
  rand_calls s' = (rand_calls s + length l)%nat /\
  now_calls s' = (now_calls s + unnamed l)%nat.
Proof.
  induction l as [|a l IH]; intros s recs s' E.
  - injection E as <- <-. cbn. split; lia.
  - cbn [mapM] in E. unfold bind, ret in E.
    destruct (make_image random36 clock prefix a s) as [rec s1] eqn:E1.
    destruct (mapM (make_image random36 clock prefix) l s1) as [recs1 s2] eqn:E2.
    injection E as <- <-.
    destruct (make_image_counts _ _ _ _ _ E1) as [Hr Hn].
    destruct (IH _ _ _ E2) as [Hr' Hn'].
    rewrite unnamed_cons. cbn [length]. split; lia.
Qed.

Lemma step_counts o s :
  rand_calls (exec (step random36 clock o) s)
    = (rand_calls s + length (accepted o))%nat /\
  now_calls (exec (step random36 clock o) s)
    = (now_calls s + unnamed (accepted o))%nat.
Proof.
  destruct o as [st r|st r|i c|img|]; cbn [step accepted].
  - destruct (decide (st = granted)) as [->|Hs].
    + unfold exec. rewrite pickImage_granted.
      destruct (canceled r); cbn [negb]; [cbn; split; lia|].
      destruct (assets r) as [l|]; [|cbn; split; lia].
      unfold bind.
      destruct (mapM (make_image random36 clock "image") l (library_launched s))
        as [recs s1] eqn:E.
      destruct (mapM_make_image_counts _ _ _ _ _ E) as [Hr Hn]. cbn in Hr, Hn |- *. done.
    + rewrite pickImage_not_granted by done.
      destruct st; try done; cbn; split; lia.
  - destruct (decide (st = granted)) as [->|Hs].
    + unfold exec. rewrite takePhoto_granted.
      destruct (canceled r); cbn [negb]; [cbn; split; lia|].
      destruct (assets r) as [[|a l]|]; try (cbn; split; lia).
      unfold bind.
      destruct (make_image random36 clock "photo" a (camera_launched s))
        as [rec s1] eqn:E.
      destruct (make_image_counts _ _ _ _ _ E) as [Hr Hn]. cbn in Hr, Hn |- *.
      split; [lia|done].
    + rewrite takePhoto_not_granted by done.
      destruct st; try done; cbn; split; lia.
  - destruct c; cbn; split; lia.
  - cbn; split; lia.
  - cbn; split; lia.
Qed.

Lemma run_counts ops : forall s,
  rand_calls (run random36 clock ops s)
    = (rand_calls s + length (concat (accepted <$> ops)))%nat /\
  now_calls (run random36 clock ops s)
    = (now_calls s + unnamed (concat (accepted <$> ops)))%nat.
Proof.
  induction ops as [|o ops IH]; intros s.
  - cbn. split; lia.
  - cbn [run fmap list_fmap concat].
    destruct (IH (exec (step random36 clock o) s)) as [Hr Hn].
    destruct (step_counts o s) as [Hr1 Hn1].
    rewrite length_app, unnamed_app. split; lia.
Qed.

(** X14: over every sequence of operations from the initial state,
    [Math.random()] is called once per accepted asset and [Date.now()]
    once per accepted asset without a usable file name; denied, cancelled
    and empty results, removals and the lightbox cause no call. *)
Theorem one_draw_per_record (ops : list Op) :
  let s := run random36 clock ops initial_sys in
  let offered := concat (accepted <$> ops) in
  rand_calls s = length offered /\ now_calls s = unnamed offered.
Proof. cbv zeta. destruct (run_counts ops initial_sys) as [Hr Hn]. by split. Qed.

End Counting.

(** ** Where ids come from *)

Section Provenance.

Variable random36 : nat -> string.
Variable clock : nat -> Z.

Lemma step_ids_kept o s :
  is_removal o = false ->
  exists k,
    rand_calls (exec (step random36 clock o) s) = (rand_calls s + k)%nat /\
    ids (images (app (exec (step random36 clock o) s)))
      = ids (images (app s)) ++ (token random36 <$> seq (rand_calls s) k).
Proof.
  intros Hrm. destruct o as [st r|st r|i []|img|]; try discriminate Hrm.
  - destruct (pickImage_appends random36 clock st r s) as (recs & Ha & Hr & Hids).
    exists (length recs). cbn [step]. rewrite Ha, Hr. split; [done|].
    unfold appended, ids in *. cbn. by rewrite fmap_app, Hids.
  - destruct (takePhoto_appends random36 clock st r s) as (recs & Ha & Hr & Hids).
    exists (length recs). cbn [step]. rewrite Ha, Hr. split; [done|].
    unfold appended, ids in *. cbn. by rewrite fmap_app, Hids.
  - exists 0%nat. cbn. split; [lia|]. by rewrite app_nil_r.
  - exists 0%nat. cbn. split; [lia|]. by rewrite app_nil_r.
  - exists 0%nat. cbn. split; [lia|]. by rewrite app_nil_r.
Qed.

Lemma run_ids_kept ops : forall s,
  forallb (fun o => negb (is_removal o)) ops = true ->
  ids (images (app s)) = issued random36 s ->
  ids (images (app (run random36 clock ops s)))
    = issued random36 (run random36 clock ops s).
Proof.
  induction ops as [|o ops IH]; intros s Hno Hs; [done|].
  cbn [run forallb] in *. apply andb_true_iff in Hno as [Ho Hno].
  apply negb_true_iff in Ho.
  apply IH; [done|].
  destruct (step_ids_kept o s Ho) as (k & Hr & Hids).
  unfold issued at 1. rewrite Hr, issued_app, Hids. by rewrite Hs.
Qed.

(** X15: after every sequence of operations from the initial state, the
    ids of the records in [images] are, in list order, tokens of the random
    draws made so far in draw order, each draw used for at most one
    record; when no removal was confirmed, they are the tokens of all
    draws. *)
Theorem ids_come_from_draws (ops : list Op) :
  let s := run random36 clock ops initial_sys in
  ids (images (app s)) `sublist_of` issued random36 s /\
  (forallb (fun o => negb (is_removal o)) ops = true ->
   ids (images (app s)) = issued random36 s).
Proof.
  cbv zeta. split.
  - by apply run_ids_issued.
  - intros Hno. by apply run_ids_kept.
Qed.

End Provenance.

Lemma ids_come_from_draws_witness :
  ids (images (app (run three_draws frozen_clock
      [OpTakePhoto granted one_photo; OpOpenLightbox record_a;
       OpTakePhoto granted one_photo] initial_sys)))
  = ["4fzyo82mv"; "k2j8x0c1q"].
Proof.
  destruct (ids_come_from_draws three_draws frozen_clock
      [OpTakePhoto granted one_photo; OpOpenLightbox record_a;
       OpTakePhoto granted one_photo]) as [_ H].
  rewrite H; reflexivity.
Defined.
